(** * mdflc: the live markdown content cache of [src/lib.rs]

    A shallow embedding of the route-key derivation ([clean_url]), the
    content store ([MdFiles], a [DashMap<String, String>], modelled as a
    [gmap string string]), the startup scan ([initialize_md]), the watcher
    callback ([Api::file_update]), the HTTP handler ([handle_md]), the
    console reconfiguration ([set_path]) and the biased [select!] of the
    websocket task ([handle_ws]). *)

From Stdlib Require Import Ascii String.
From stdpp Require Import base list gmap strings.



Notation "a +:+ b" := (String.append a b) (at level 60, right associativity).

(** stdpp blocks [simpl] on [String.append]; the proofs below compute with it. *)
Arguments String.append : simpl nomatch.

(* ------------------------------------------------------------------ *)
(** ** Rust [str] helpers *)

Module Str.

(** [str::strip_prefix]: [Some rest] when [s] starts with [p]. *)
Fixpoint strip_prefix (p s : string) : option string :=
  match p, s with
  | EmptyString, _ => Some s
  | String c p', String d s' =>
      if ascii_dec c d then strip_prefix p' s' else None
  | String _ _, EmptyString => None
  end.

(** [str::strip_suffix]: [Some init] when [s] ends with [suf]; the only
    split point is [len s - len suf], found by walking down [s]. *)
Fixpoint strip_suffix (suf s : string) : option string :=
  if String.eqb s suf then Some EmptyString
  else match s with
       | EmptyString => None
       | String c s' => String c <$> strip_suffix suf s'
       end.

(** [char::is_whitespace] on ASCII characters. *)
Definition is_ws (c : ascii) : bool :=
  match c with
  | "009" | "010" | "011" | "012" | "013" | " " => true
  | _ => false
  end%char.

Fixpoint trim_start (s : string) : string :=
  match s with
  | String c s' => if is_ws c then trim_start s' else s
  | EmptyString => EmptyString
  end.

Fixpoint rev_str (s : string) : string :=
  match s with
  | EmptyString => EmptyString
  | String c s' => rev_str s' +:+ String c EmptyString
  end.

(** [str::trim]: both ends. *)
Definition trim (s : string) : string :=
  rev_str (trim_start (rev_str (trim_start s))).

(** [str::get(..2)]. *)
Definition get_to2 (s : string) : option string :=
  match s with
  | String a (String b _) => Some (String a (String b EmptyString))
  | _ => None
  end.

(** Independent, relational readings of "starts with" / "ends with". *)
Definition starts_with (p s : string) : Prop := exists r, s = p +:+ r.
Definition ends_with (suf s : string) : Prop := exists r, s = r +:+ suf.

End Str.

(** [pub fn clean_url(url: &str) -> &str] *)
Definition clean_url (url : string) : string :=
  let url := default url (Str.strip_prefix "/" url) in
  default url (Str.strip_suffix ".md" url).

(* ------------------------------------------------------------------ *)
(** ** The filesystem as the program observes it *)

(** A [PathBuf] as its list of normal components; an absolute path such as
    [/srv/docs] is [["srv"; "docs"]]. *)
Abbreviation path := (list string).

(** What the filesystem holds at a path.  [File None] is a regular file
    whose [fs::read_to_string] fails (I/O error or invalid UTF-8). *)
Inductive node :=
| File (contents : option string)
| Dir
| Other.

(** The filesystem: its nodes, and what [Path::canonicalize] answers for
    a console string ([None]: the path does not resolve). *)
Record fsys := {
  nodes : gmap path node;
  canon : string -> option path;
}.

Definition is_file (fs : fsys) (p : path) : bool :=
  match nodes fs !! p with Some (File _) => true | _ => false end.

Definition try_exists (fs : fsys) (p : path) : bool :=
  bool_decide (is_Some (nodes fs !! p)).

Definition read_to_string (fs : fsys) (p : path) : option string :=
  match nodes fs !! p with Some (File c) => c | _ => None end.

(** [Path::strip_prefix]: component-wise. *)
Fixpoint path_strip_prefix (base p : path) : option path :=
  match base, p with
  | [], _ => Some p
  | b :: base', c :: p' =>
      if string_dec b c then path_strip_prefix base' p' else None
  | _ :: _, [] => None
  end.

(** [Path::to_str] of a relative path: components joined by ['/']. *)
Definition to_str (rel : path) : string := String.concat "/" rel.

(** [WalkDir::new(base)]: [base] itself and every node below it, in the
    order the directory walk reports them (here: the map's order).  The
    model takes every node of the map as reached by the walk; entries the
    real walk skips (below a symlinked or an unreadable directory) are
    outside it. *)
Definition walkdir (fs : fsys) (base : path) : list (path * node) :=
  filter (fun e => is_Some (path_strip_prefix base e.1)) (map_to_list (nodes fs)).

(* ------------------------------------------------------------------ *)
(** ** Errors and results *)

Inductive error :=
| IoError (p : path)                 (** [fs::read_to_string] failed *)
| CanonicalizeError (s : string)     (** [PathBuf::canonicalize] failed *)
| Bail (msg : string).               (** [bail!] / [ensure!] / [context] *)

Inductive result (A : Type) :=
| Ok (a : A)
| Err (e : error).
Arguments Ok {A} a.
Arguments Err {A} e.

(* ------------------------------------------------------------------ *)
(** ** Rendering and the content store *)

Section Program.

(** [pulldown_cmark] rendering into a [String]: [write_html_fmt] into a
    [String] cannot fail, so rendering is a total function. *)
Variable render : string -> string.

(** [pub fn write_md_from_file(out: &mut String, path: &Path)]: the read
    happens before [out.clear()], so on error [out] is untouched. *)
Definition write_md_from_file (fs : fsys) (out : string) (p : path)
  : string * result unit :=
  match read_to_string fs p with
  | Some text => (render text, Ok tt)
  | None => (out, Err (IoError p))
  end.

(** The [filter] closure of [initialize_md]. *)
Definition init_filter (base : path) (e : path * node) : option (string * path) :=
  match e.2 with
  | File _ =>
      rel ← path_strip_prefix base e.1;
      key ← Str.strip_suffix ".md" (to_str rel);
      Some (key, e.1)
  | _ => None
  end.

Fixpoint init_loop (fs : fsys) (md : gmap string string)
    (files : list (string * path)) : result (gmap string string) :=
  match files with
  | [] => Ok md
  | (key, p) :: rest =>
      match write_md_from_file fs "" p with
      | (value, Ok _) => init_loop fs (<[key := value]> md) rest
      | (_, Err e) => Err e
      end
  end.

(** [pub fn initialize_md(base: &Path) -> anyhow::Result<MdFiles>] *)
Definition initialize_md (fs : fsys) (base : path) : result (gmap string string) :=
  if is_file fs base then
    match write_md_from_file fs "" base with
    | (value, Ok _) => Ok {[ "index" := value ]}
    | (_, Err e) => Err e
    end
  else init_loop fs ∅ (omap (init_filter base) (walkdir fs base)).

(* ------------------------------------------------------------------ *)
(** ** The shared [Api] value *)

(** [struct Template]: the shell around a rendered page. *)
Record template := {
  before : string;
  after : string;
  not_found : string;
}.

(** [impl Template { fn html }]: plain concatenation. *)
Definition html (t : template) (s : string) : string :=
  before t +:+ s +:+ after t.

(** The fields of [Api] the claims read or write ([url], [addr] and the
    [Notify]s are not state: notifications are reported as outputs). *)
Record api := {
  md : gmap string string;
  base : path;
  index : string;
  tmpl : template;
  sockets : nat;
}.

(** [Api::get_md] *)
Definition get_md (a : api) (url : string) : option string :=
  html (tmpl a) <$> md a !! clean_url url.

Inductive status := OK_200 | NOT_FOUND_404.

(** [async fn handle_md] *)
Definition handle_md (url : string) (a : api) : status * string :=
  match get_md a url with
  | Some h => (OK_200, h)
  | None => (NOT_FOUND_404, not_found (tmpl a))
  end.

(** [str::find] followed by the two [get]s of [Template::default]:
    [Some (before, after)] around the first occurrence of [pat]. *)
Fixpoint split_first (pat s : string) : option (string * string) :=
  match Str.strip_prefix pat s with
  | Some rest => Some (EmptyString, rest)
  | None =>
      match s with
      | EmptyString => None
      | String c s' => (fun '(b, a) => (String c b, a)) <$> split_first pat s'
      end
  end.

(** [impl Default for Template]; [None] is the [unreachable!] branch. *)
Definition template_default (index_html : string) : option template :=
  '(b, a) ← split_first "{{md}}" index_html;
  Some {| before := b; after := a;
          not_found := b +:+ "<h1>Error 404: Page not found</h1>" +:+ a |}.

(* ------------------------------------------------------------------ *)
(** ** [Api::file_update]: the watcher callback *)

Inductive signal :=
| Hangup | ForceStop | Interrupt | Quit | Terminate
| User1 | User2 | Custom (n : nat).

(** [matches!(s, Hangup | ForceStop | Interrupt | Quit | Terminate)] *)
Definition is_stop (s : signal) : bool :=
  match s with
  | Hangup | ForceStop | Interrupt | Quit | Terminate => true
  | _ => false
  end.

(** What an [ActionHandler] carries: the signals and the changed paths of
    one throttled batch. *)
Record action := {
  act_signals : list signal;
  act_paths : list path;
}.

(** The [filter] closure of [file_update]. *)
Definition update_filter (fs : fsys) (b : path) (p : path) : option (path * string) :=
  if is_file fs p then
    rel ← path_strip_prefix b p;
    Some (p, clean_url (to_str rel))
  else None.

(** [h.paths().filter_map(filter).collect::<HashSet<_>>()] as a list
    without duplicates.  Rust iterates a [HashSet] in an unspecified order:
    the loop below is run on any permutation of this list. *)
Definition batch_set (fs : fsys) (b : path) (h : action) : list (path * string) :=
  remove_dups (omap (update_filter fs b) (act_paths h)).

(** The [for] loop: [self.md.entry(key).or_default()] then
    [write_md_from_file(...)?]; the [?] leaves the loop (and the
    callback) with the error, and the entry created by [or_default]
    stays in the map. *)
Fixpoint update_loop (fs : fsys) (m : gmap string string)
    (items : list (path * string)) : gmap string string * result unit :=
  match items with
  | [] => (m, Ok tt)
  | (p, key) :: rest =>
      let cur := default EmptyString (m !! key) in
      let m1 := <[key := cur]> m in
      match write_md_from_file fs cur p with
      | (v, Ok _) => update_loop fs (<[key := v]> m1) rest
      | (v, Err e) => (<[key := v]> m1, Err e)
      end
  end.

(** The observable effects of one call. *)
Record update_out := {
  uo_api : api;
  uo_quit : option signal;      (** [h.quit_gracefully(signal, ..)] *)
  uo_notifies : nat;            (** calls of [self.update.notify_waiters()] *)
  uo_result : result unit;
}.

Definition with_md (a : api) (m : gmap string string) : api :=
  {| md := m; base := base a; index := index a; tmpl := tmpl a;
     sockets := sockets a |}.

(** [pub fn file_update(&self, h: &mut ActionHandler)], with [order] the
    iteration order of the collected [HashSet]. *)
Definition file_update (fs : fsys) (a : api) (h : action)
    (order : list (path * string)) : update_out :=
  match List.find is_stop (act_signals h) with
  | Some s => {| uo_api := a; uo_quit := Some s; uo_notifies := 0;
                 uo_result := Ok tt |}
  | None =>
      match update_loop fs (md a) order with
      | (m, Err e) => {| uo_api := with_md a m; uo_quit := None;
                         uo_notifies := 0; uo_result := Err e |}
      | (m, Ok _) =>
          {| uo_api := with_md a m; uo_quit := None;
             uo_notifies := if Nat.eqb (sockets a) 0 then 0 else 1;
             uo_result := Ok tt |}
      end
  end.

(** A run of the callback: [file_update] in some iteration order of the
    [HashSet]. *)
Definition file_update_run (fs : fsys) (a : api) (h : action)
    (order : list (path * string)) : Prop :=
  order ≡ₚ batch_set fs (base a) h.

End Program.

(* ------------------------------------------------------------------ *)
(** ** The console: [set_path] *)

(** The [Api] fields and the watched path set ([wx.config.pathset]). *)
Record console := {
  c_api : api;
  c_watch : list path;
}.

Inductive kind := KPath | KIndex.

(** The command parse of [set_path]: [inl (Ok false)] is the early
    [return Ok(false)], [inl (Err _)] the [bail!]. *)
Definition parse_set (s : string) : result bool + (kind * string) :=
  match Str.strip_prefix "set" s with
  | Some s' =>
      let s' := Str.trim s' in
      match Str.strip_prefix "path" s' with
      | Some r => inr (KPath, r)
      | None =>
          match Str.strip_prefix "index" s' with
          | Some r => inr (KIndex, r)
          | None => inl (Err (Bail "expect 'path' or 'index' after set"))
          end
      end
  | None =>
      match Str.get_to2 s with
      | Some "sp" => inr (KPath, s)
      | Some "si" => inr (KIndex, s)
      | _ => inl (Ok false)
      end
  end.

(** [fn set_path(s: &str, api: &Api, wx: &Watchexec) -> anyhow::Result<bool>]:
    the new console state and the result. *)
Definition set_path (fs : fsys) (s : string) (c : console) : console * result bool :=
  match parse_set s with
  | inl r => (c, r)
  | inr (k, raw) =>
      let p := Str.trim raw in
      if String.eqb p EmptyString then (c, Err (Bail "inputted path was empty"))
      else
        match canon fs p with
        | None => (c, Err (CanonicalizeError p))
        | Some q =>
            match k with
            | KPath =>
                (* [try_exists] only decides whether a warning is printed *)
                let _ := try_exists fs q in
                let a := c_api c in
                ({| c_api := {| md := md a; base := q; index := index a;
                                tmpl := tmpl a; sockets := sockets a |};
                    c_watch := [q] |}, Ok true)
            | KIndex =>
                let a := c_api c in
                match path_strip_prefix (base a) q with
                | None => (c, Err (Bail "index must be a subpath of base"))
                | Some rel =>
                    ({| c_api := {| md := md a; base := base a;
                                    index := to_str rel; tmpl := tmpl a;
                                    sockets := sockets a |};
                        c_watch := c_watch c |}, Ok true)
                end
            end
        end
  end.

(* ------------------------------------------------------------------ *)
(** ** The websocket task: [handle_ws] *)

(** The three arms of the [biased] [tokio::select!], in source order. *)
Inductive ws_branch := WsClosed | WsPeerRead | WsUpdate.

(** What the task does with the socket once an arm completes. *)
Inductive ws_effect := SocketClose | NothingSent | SendRefresh.

(** A [biased] select polls the arms top to bottom and takes the first
    one that is ready. *)
Definition ws_select (closed_ready peer_ready update_ready : bool)
  : option ws_branch :=
  if closed_ready then Some WsClosed
  else if peer_ready then Some WsPeerRead
  else if update_ready then Some WsUpdate
  else None.

Definition ws_arm (b : ws_branch) : ws_effect :=
  match b with
  | WsClosed => SocketClose          (* socket.close().await *)
  | WsPeerRead => NothingSent        (* Ok(()) *)
  | WsUpdate => SendRefresh          (* socket.send("refresh".into()) *)
  end.

Definition handle_ws_step (closed_ready peer_ready update_ready : bool)
  : option ws_effect :=
  ws_arm <$> ws_select closed_ready peer_ready update_ready.

(* ------------------------------------------------------------------ *)
(** ** Well-formed relative paths *)



(** A template as [Template::default] builds it from a page
    [<main>{{md}}</main>]. *)
Definition demo_tmpl : template :=
  {| before := "<main>"; after := "</main>";
     not_found := "<main><h1>Error 404: Page not found</h1></main>" |}.


(* ------------------------------------------------------------------ *)
(** ** Startup: [Api::new] and [handle_index] *)

(** [pub fn new(addr, index: &Path, base: &Path) -> anyhow::Result<Self>],
    with [t] the value of [Template::default()] (built from the compiled-in
    [INDEX_HTML]).  [to_str] cannot fail on the model's paths. *)
Definition api_new (render : string -> string) (fs : fsys) (t : template)
    (index_s base_s : string) : result api :=
  match canon fs base_s with
  | None => Err (CanonicalizeError base_s)
  | Some b =>
      match canon fs index_s with
      | None => Err (CanonicalizeError index_s)
      | Some q =>
          match path_strip_prefix b q with
          | None => Err (Bail "Index must be a path within base")
          | Some rel =>
              match initialize_md render fs b with
              | Err e => Err e
              | Ok m => Ok {| md := m; base := b; index := to_str rel;
                              tmpl := t; sockets := 0 |}
              end
          end
      end
  end.

(** [StatusCode::SEE_OTHER] with a [LOCATION] header. *)
Inductive redirect := SeeOther (location : string).

(** [pub async fn handle_index] *)
Definition handle_index (a : api) : redirect := SeeOther (index a).

(* ------------------------------------------------------------------ *)
(** ** The route table of [router] *)

Inductive route :=
| RIndex | RIndexCss | RIndexJs | RFavicon | RRefreshWs
| RMd (seg : string)   (** ["/:md"] with the decoded segment *)
| RBadRequest          (** the [Path<String>] rejection: 400 *)
| RNoRoute.

Definition has_slash (s : string) : bool :=
  existsb (fun ch => Ascii.eqb ch "/"%char) (list_ascii_of_string s).

(** [char::to_digit(16)]. *)
Definition hex_val (c : ascii) : option nat :=
  let n := nat_of_ascii c in
  if (48 <=? n) && (n <=? 57) then Some (n - 48)
  else if (65 <=? n) && (n <=? 70) then Some (n - 55)
  else if (97 <=? n) && (n <=? 102) then Some (n - 87)
  else None.

(** [percent_encoding::percent_decode]: a ['%'] followed by two hex digits
    is one byte; any other ['%'] stays as it is. *)
Fixpoint percent_decode (s : string) : string :=
  match s with
  | EmptyString => EmptyString
  | String c rest =>
      if Ascii.eqb c "%" then
        match rest with
        | String h (String l rest') =>
            match hex_val h, hex_val l with
            | Some x, Some y => String (ascii_of_nat (16 * x + y)) (percent_decode rest')
            | _, _ => String c (percent_decode rest)
            end
        | _ => String c (percent_decode rest)
        end
      else String c (percent_decode rest)
  end.

Definition in_range (lo hi b : nat) : bool := (lo <=? b) && (b <=? hi).

(** Well-formed UTF-8 (the byte sequences of the Unicode standard's
    Table 3-7), as [str::from_utf8] checks it. *)
Fixpoint utf8_ok (l : list nat) : bool :=
  match l with
  | [] => true
  | b :: r =>
      if b <? 128 then utf8_ok r
      else if in_range 194 223 b then
        match r with
        | c1 :: r' => in_range 128 191 c1 && utf8_ok r'
        | [] => false
        end
      else if in_range 224 239 b then
        match r with
        | c1 :: c2 :: r' =>
            (if b =? 224 then in_range 160 191 c1
             else if b =? 237 then in_range 128 159 c1
             else in_range 128 191 c1) &&
            in_range 128 191 c2 && utf8_ok r'
        | _ => false
        end
      else if in_range 240 244 b then
        match r with
        | c1 :: c2 :: c3 :: r' =>
            (if b =? 240 then in_range 144 191 c1
             else if b =? 244 then in_range 128 143 c1
             else in_range 128 191 c1) &&
            in_range 128 191 c2 && in_range 128 191 c3 && utf8_ok r'
        | _ => false
        end
      else false
  end.

(** Which handler of [router] a request reaches, from the path of the
    request URI as the server receives it (still percent-encoded; query
    and fragment are not part of it).  The routes are matched on that raw
    path: the static routes first, then ["/:md"], whose parameter is one
    non-empty segment (no ['/']).  [Path<String>] percent-decodes the
    segment and rejects it when the result is not UTF-8. *)
Definition route_of (p : string) : route :=
  match Str.strip_prefix "/" p with
  | None => RNoRoute
  | Some rest =>
      if String.eqb rest "" then RIndex
      else if String.eqb rest "index.css" then RIndexCss
      else if String.eqb rest "index.js" then RIndexJs
      else if String.eqb rest "favicon.ico" then RFavicon
      else if String.eqb rest "refresh-ws" then RRefreshWs
      else if has_slash rest then RNoRoute
      else
        let seg := percent_decode rest in
        if utf8_ok (map nat_of_ascii (list_ascii_of_string seg)) then RMd seg
        else RBadRequest
  end.

(** Characters a client puts into a URL path as they are: letters, digits,
    ['/'] and the unreserved and sub-delimiter marks of RFC 3986, ['%'],
    ['?'], ['#'], spaces and controls excluded. *)
Definition url_char (c : ascii) : bool :=
  let n := nat_of_ascii c in
  in_range 48 57 n || in_range 65 90 n || in_range 97 122 n ||
  existsb (Ascii.eqb c) (list_ascii_of_string "-._~!$&'()*+,;=:@/").

(* ------------------------------------------------------------------ *)
(** ** The console loop: [handle_ci] and [read_console] *)







(* ================================================================== *)
(** * Properties *)

(* ------------------------------------------------------------------ *)
(** ** String facts *)

Module StrFacts.

Lemma append_nil_r (s : string) : s +:+ EmptyString = s.
Proof. induction s as [|c s IH]; simpl; [done | by rewrite IH]. Qed.

Lemma append_assoc (a b c : string) : a +:+ b +:+ c = (a +:+ b) +:+ c.
Proof. induction a as [|x a IH]; simpl; [done | by rewrite IH]. Qed.

Lemma length_append (a b : string) :
  String.length (a +:+ b) = String.length a + String.length b.
Proof. induction a as [|x a IH]; simpl; [done | by rewrite IH]. Qed.

Lemma strip_prefix_Some (p s r : string) :
  Str.strip_prefix p s = Some r <-> s = p +:+ r.
Proof.
  revert s. induction p as [|c p IH]; intros [|d s]; simpl.
  - split; congruence.
  - split; congruence.
  - split; congruence.
  - destruct (ascii_dec c d) as [->|Hne].
    + rewrite IH. split; [by intros -> | by intros [= ->]].
    + split; [done | by intros [= ->]].
Qed.

Lemma strip_prefix_None (p s : string) :
  Str.strip_prefix p s = None <-> ~ Str.starts_with p s.
Proof.
  unfold Str.starts_with. split.
  - intros H [r Hr]. apply strip_prefix_Some in Hr. congruence.
  - intros H. destruct (Str.strip_prefix p s) as [r|] eqn:E; [|done].
    exfalso. apply H. exists r. by apply strip_prefix_Some.
Qed.

Lemma strip_suffix_unfold (suf s : string) :
  Str.strip_suffix suf s =
  if String.eqb s suf then Some EmptyString
  else match s with
       | EmptyString => None
       | String c s' => String c <$> Str.strip_suffix suf s'
       end.
Proof. by destruct s. Qed.

Lemma strip_suffix_Some (suf s r : string) :
  Str.strip_suffix suf s = Some r <-> s = r +:+ suf.
Proof.
  split.
  - revert r. induction s as [|c s IH]; intros r; rewrite strip_suffix_unfold.
    + destruct (String.eqb "" suf) eqn:E; [|done].
      apply String.eqb_eq in E as <-. by intros [= <-].
    + destruct (String.eqb (String c s) suf) eqn:E.
      * apply String.eqb_eq in E as <-. by intros [= <-].
      * destruct (Str.strip_suffix suf s) as [r'|]; simpl; [|done].
        intros [= <-]. simpl. by rewrite <- (IH r').
  - intros ->. induction r as [|c r IH]; rewrite strip_suffix_unfold.
    + change (EmptyString +:+ suf) with suf. by rewrite String.eqb_refl.
    + change (String c r +:+ suf) with (String c (r +:+ suf)).
      destruct (String.eqb (String c (r +:+ suf)) suf) eqn:E.
      * apply String.eqb_eq in E. exfalso.
        apply (f_equal String.length) in E. simpl in E.
        rewrite length_append in E. lia.
      * cbv iota beta. by rewrite IH.
Qed.

Lemma strip_suffix_None (suf s : string) :
  Str.strip_suffix suf s = None <-> ~ Str.ends_with suf s.
Proof.
  unfold Str.ends_with. split.
  - intros H [r Hr]. apply strip_suffix_Some in Hr. congruence.
  - intros H. destruct (Str.strip_suffix suf s) as [r|] eqn:E; [|done].
    exfalso. apply H. exists r. by apply strip_suffix_Some.
Qed.

(** A leading ['/'] never belongs to a [".md"] suffix. *)
Lemma ends_with_md_slash (r : string) :
  Str.ends_with ".md" ("/" +:+ r) <-> Str.ends_with ".md" r.
Proof.
  unfold Str.ends_with. split.
  - intros [[|c x] Hx]; simpl in Hx; [discriminate|].
    injection Hx as _ Hx. by exists x.
  - intros [x ->]. by exists ("/" +:+ x).
Qed.

End StrFacts.

(* ------------------------------------------------------------------ *)
(** ** Route keys *)

Module Keys.
Import StrFacts.





Lemma path_strip_prefix_app (b rel : path) :
  path_strip_prefix b (b ++ rel) = Some rel.
Proof.
  induction b as [|x b IH]; simpl; [done|].
  destruct (string_dec x x); [done | congruence].
Qed.

Lemma path_strip_prefix_Some (b p rel : path) :
  path_strip_prefix b p = Some rel <-> p = b ++ rel.
Proof.
  split.
  - revert p. induction b as [|x b IH]; intros [|y p]; simpl;
      try (by intros [= ->]); try done.
    destruct (string_dec x y) as [->|]; [|done].
    intros H. by rewrite (IH p H).
  - intros ->. apply path_strip_prefix_app.
Qed.

End Keys.

(** C8. [clean_url] is a total function: every input is the output with
    at most one leading ["/"] before it and at most one [".md"] after it,
    each removed exactly when the input has it; an input with neither is
    returned unchanged. *)
Theorem clean_url_strip_once (url : string) :
  (exists pre suf,
      (pre = EmptyString \/ pre = "/") /\ (suf = EmptyString \/ suf = ".md") /\
      url = pre +:+ clean_url url +:+ suf /\
      (pre = "/" <-> Str.starts_with "/" url) /\
      (suf = ".md" <-> Str.ends_with ".md" url)) /\
  (~ Str.starts_with "/" url -> ~ Str.ends_with ".md" url -> clean_url url = url).
Proof.
  unfold clean_url. cbv zeta.
  destruct (Str.strip_prefix "/" url) as [r|] eqn:Hp; simpl.
  - apply StrFacts.strip_prefix_Some in Hp.
    assert (Hst : Str.starts_with "/" url) by (by exists r).
    split; [|by intros H1; exfalso; apply H1].
    destruct (Str.strip_suffix ".md" r) as [m|] eqn:Hs; simpl.
    + apply StrFacts.strip_suffix_Some in Hs. subst.
      exists "/", ".md".
      split; [by right|]. split; [by right|]. split; [done|].
      split; [done|]. split; [|done].
      intros _. apply StrFacts.ends_with_md_slash. by exists m.
    + exists "/", EmptyString.
      split; [by right|]. split; [by left|].
      split; [by rewrite StrFacts.append_nil_r|]. split; [done|].
      split; [done|].
      intros H. rewrite Hp in H. apply (proj1 (StrFacts.ends_with_md_slash r)) in H.
      apply StrFacts.strip_suffix_None in Hs. by destruct (Hs H).
  - apply StrFacts.strip_prefix_None in Hp.
    destruct (Str.strip_suffix ".md" url) as [m|] eqn:Hs; simpl.
    + apply StrFacts.strip_suffix_Some in Hs.
      split; [|by intros _ H2; exfalso; apply H2; exists m].
      exists EmptyString, ".md".
      split; [by left|]. split; [by right|]. split; [done|].
      split; [done|]. split; [|done].
      intros _. by exists m.
    + apply StrFacts.strip_suffix_None in Hs.
      split; [|done].
      exists EmptyString, EmptyString.
      split; [by left|]. split; [by left|].
      split; [by rewrite StrFacts.append_nil_r|]. split; [done|]. done.
Qed.

Lemma clean_url_strip_once_witness :
  clean_url "notes.txt" = "notes.txt" /\ clean_url "/guide/intro.md" = "guide/intro".
Proof.
  destruct (clean_url_strip_once "notes.txt") as [_ H].
  split.
  - apply H.
    + apply StrFacts.strip_prefix_None. reflexivity.
    + apply StrFacts.strip_suffix_None. reflexivity.
  - reflexivity.
Defined.





(* ------------------------------------------------------------------ *)
(** ** HTTP serving *)

(** C7. [handle_md] answers 404 with the template's fixed not-found body
    when the store has no entry for [clean_url url], and 200 with
    [before ++ v ++ after] when the entry is [v]; it is a total function
    (no error case). *)
Theorem handle_md_response (url : string) (a : api) :
  handle_md url a =
    match md a !! clean_url url with
    | Some v => (OK_200, before (tmpl a) +:+ v +:+ after (tmpl a))
    | None => (NOT_FOUND_404, not_found (tmpl a))
    end.
Proof.
  unfold handle_md, get_md, html. by destruct (md a !! clean_url url).
Qed.

(* ------------------------------------------------------------------ *)
(** ** The websocket select *)

(** C5 (counterexample). When the peer-read arm and the update arm are
    ready together (no shutdown), the peer-read arm wins and no refresh is
    sent. *)
Lemma ws_priority_counterexample :
  ws_select false true true = Some WsPeerRead /\
  handle_ws_step false true true = Some NothingSent /\
  handle_ws_step false true true <> Some SendRefresh.
Proof. repeat split. discriminate. Qed.

(** C5 (amended). Shutdown takes precedence over both other arms (the
    socket is closed even when a refresh is ready too); the peer-read arm
    takes precedence over a content change; a content change alone sends
    the refresh. *)
Theorem ws_select_priority :
  (forall peer upd, ws_select true peer upd = Some WsClosed /\
                    handle_ws_step true peer upd = Some SocketClose) /\
  (forall upd, ws_select false true upd = Some WsPeerRead) /\
  ws_select false false true = Some WsUpdate /\
  handle_ws_step false false true = Some SendRefresh.
Proof. repeat split. Qed.

(* ------------------------------------------------------------------ *)
(** ** Root reconfiguration *)

(** C6. A [set path] command whose path does not resolve fails at
    [canonicalize] with the error, before any field is written: the
    [Api] (root, index, store) and the watched set are returned as they
    were, so every lookup that succeeded before still succeeds. *)
Theorem set_path_missing_keeps_state (fs : fsys) (s raw : string) (c : console) :
  parse_set s = inr (KPath, raw) ->
  Str.trim raw <> EmptyString ->
  canon fs (Str.trim raw) = None ->
  set_path fs s c = (c, Err (CanonicalizeError (Str.trim raw))) /\
  (forall url v, get_md (c_api c) url = Some v ->
                 get_md (c_api (set_path fs s c).1) url = Some v).
Proof.
  intros Hparse Hne Hcanon.
  assert (E : set_path fs s c = (c, Err (CanonicalizeError (Str.trim raw)))).
  { unfold set_path. rewrite Hparse. cbv zeta.
    destruct (String.eqb (Str.trim raw) EmptyString) eqn:Eq.
    - by apply String.eqb_eq in Eq.
    - by rewrite Hcanon. }
  split; [exact E|]. rewrite E. simpl. auto.
Qed.

Lemma set_path_missing_keeps_state_witness :
  let fs := {| nodes := {[ ["docs"] := Dir; ["docs"; "a.md"] := File (Some "# Hi") ]};
               canon := fun p => if String.eqb p "/docs" then Some ["docs"] else None |} in
  let c := {| c_api := {| md := {[ "a" := "<h1>Hi</h1>" ]}; base := ["docs"];
                          index := "a.md"; tmpl := demo_tmpl; sockets := 0 |};
              c_watch := [["docs"]] |} in
  set_path fs "set path /nope" c = (c, Err (CanonicalizeError "/nope")) /\
  get_md (c_api (set_path fs "set path /nope" c).1) "a.md" =
    Some "<main><h1>Hi</h1></main>".
Proof.
  intros fs c.
  assert (Hp : parse_set "set path /nope" = inr (KPath, " /nope")) by reflexivity.
  assert (Hn : Str.trim " /nope" <> EmptyString) by (vm_compute; discriminate).
  assert (Hc : canon fs (Str.trim " /nope") = None) by reflexivity.
  destruct (set_path_missing_keeps_state fs "set path /nope" " /nope" c Hp Hn Hc)
    as [H1 H2].
  split; [exact H1|]. apply H2. reflexivity.
Defined.

(** C3 (counterexample). Switching the root from [/old] to [/new] keeps
    the old store: the entry [a] of [/old] is still served and [b], which
    a scan of [/new] would produce, is absent. *)
Lemma set_path_no_rescan_counterexample :
  let fs := {| nodes := {[ ["old"] := Dir; ["old"; "a.md"] := File (Some "A");
                           ["new"] := Dir; ["new"; "b.md"] := File (Some "B") ]};
               canon := fun p => if String.eqb p "/new" then Some ["new"] else None |} in
  let c := {| c_api := {| md := {[ "a" := "A" ]}; base := ["old"];
                          index := "a.md"; tmpl := demo_tmpl; sockets := 0 |};
              c_watch := [["old"]] |} in
  let c' := set_path fs "set path /new" c in
  c'.2 = Ok true /\ base (c_api c'.1) = ["new"] /\
  md (c_api c'.1) !! "a" = Some "A" /\ md (c_api c'.1) !! "b" = None /\
  (match initialize_md (fun t => t) fs ["new"] with
   | Ok m => m !! "b" = Some "B" /\ m !! "a" = None
   | Err _ => False
   end).
Proof. vm_compute. repeat split. Qed.

(** C3 (amended). A successful [set path] replaces the root and the
    watched path set with the canonical new path and leaves the content
    store as it was: no rescan or rebuild happens. *)
Theorem set_path_swaps_root_only (fs : fsys) (s raw : string) (c : console) (q : path) :
  parse_set s = inr (KPath, raw) ->
  Str.trim raw <> EmptyString ->
  canon fs (Str.trim raw) = Some q ->
  (set_path fs s c).2 = Ok true /\
  base (c_api (set_path fs s c).1) = q /\
  c_watch (set_path fs s c).1 = [q] /\
  md (c_api (set_path fs s c).1) = md (c_api c).
Proof.
  intros Hparse Hne Hcanon.
  unfold set_path. rewrite Hparse. cbv zeta.
  destruct (String.eqb (Str.trim raw) EmptyString) eqn:Eq.
  - by apply String.eqb_eq in Eq.
  - by rewrite Hcanon.
Qed.

Lemma set_path_swaps_root_only_witness :
  let fs := {| nodes := {[ ["old"] := Dir; ["old"; "a.md"] := File (Some "A");
                           ["new"] := Dir; ["new"; "b.md"] := File (Some "B") ]};
               canon := fun p => if String.eqb p "/new" then Some ["new"] else None |} in
  let c := {| c_api := {| md := {[ "a" := "A" ]}; base := ["old"];
                          index := "a.md"; tmpl := demo_tmpl; sockets := 2 |};
              c_watch := [["old"]] |} in
  base (c_api (set_path fs "set path /new" c).1) = ["new"] /\
  c_watch (set_path fs "set path /new" c).1 = [["new"]] /\
  md (c_api (set_path fs "set path /new" c).1) = {[ "a" := "A" ]}.
Proof.
  intros fs c.
  destruct (set_path_swaps_root_only fs "set path /new" " /new" c ["new"])
    as (_ & H1 & H2 & H3).
  - reflexivity.
  - vm_compute. discriminate.
  - reflexivity.
  - split; [exact H1|]. split; [exact H2|]. exact H3.
Defined.

(* ------------------------------------------------------------------ *)
(** ** Startup scan *)

Module Init.




End Init.

(** C9. When the base path is a regular file, [initialize_md] succeeds
    exactly when the file reads, and then the store has the single entry
    ["index"] holding the rendering of the file's contents. *)
Theorem initialize_md_single_file (render : string -> string) (fs : fsys) (b : path) :
  is_file fs b = true ->
  forall m, initialize_md render fs b = Ok m <->
    exists txt, read_to_string fs b = Some txt /\ m = {[ "index" := render txt ]}.
Proof.
  intros Hf m. unfold initialize_md. rewrite Hf. unfold write_md_from_file.
  destruct (read_to_string fs b) as [txt|].
  - split; [intros [= <-]; eauto | by intros (t & [= <-] & ->)].
  - split; [discriminate | by intros (t & ? & _)].
Qed.

Lemma initialize_md_single_file_witness :
  let fs := {| nodes := {[ ["notes.md"] := File (Some "# Hi") ]};
               canon := fun _ => None |} in
  is_file fs ["notes.md"] = true /\
  initialize_md (fun t => "<h1>" +:+ t +:+ "</h1>") fs ["notes.md"] =
    Ok {[ "index" := "<h1># Hi</h1>" ]}.
Proof.
  intros fs.
  assert (Hf : is_file fs ["notes.md"] = true) by reflexivity.
  split; [exact Hf|].
  apply (initialize_md_single_file (fun t => "<h1>" +:+ t +:+ "</h1>") fs _ Hf).
  exists "# Hi". split; reflexivity.
Defined.



(* ------------------------------------------------------------------ *)
(** ** The watcher callback *)

Module Update.

Lemma update_loop_app (render : string -> string) (fs : fsys)
    (m : gmap string string) (pre rest : list (path * string)) :
  update_loop render fs m (pre ++ rest) =
    match update_loop render fs m pre with
    | (m1, Ok _) => update_loop render fs m1 rest
    | (m1, Err e) => (m1, Err e)
    end.
Proof.
  revert m. induction pre as [|[p key] pre IH]; intros m; simpl.
  - done.
  - destruct (write_md_from_file render fs (default "" (m !! key)) p)
      as [v [u|e]]; [apply IH | done].
Qed.

End Update.

(** C1 (counterexample). A batch whose only path no longer is a regular
    file (it was deleted) applies nothing, yet with one listener attached
    the handler fires the change signal. *)
Lemma file_update_notify_counterexample :
  let fs := {| nodes := {[ ["docs"] := Dir ]}; canon := fun _ => None |} in
  let a := {| md := {[ "a" := "A" ]}; base := ["docs"]; index := "a.md";
              tmpl := demo_tmpl; sockets := 1 |} in
  let h := {| act_signals := []; act_paths := [["docs"; "gone.md"]] |} in
  file_update_run fs a h [] /\
  batch_set fs (base a) h = [] /\
  md (uo_api (file_update (fun t => t) fs a h [])) = md a /\
  uo_notifies (file_update (fun t => t) fs a h []) = 1.
Proof.
  intros fs a h. unfold file_update_run.
  assert (Hb : batch_set fs (base a) h = []) by (vm_compute; reflexivity).
  rewrite Hb. repeat split; constructor.
Qed.

(** C1 (amended). For a batch without a stop signal, [notify_waiters] is
    called at most once, after the loop (never per file); it is called
    exactly when the loop over the batch finished without an error and the
    socket count is non-zero, whether or not any entry was applied. *)
Theorem file_update_notify_once (render : string -> string) (fs : fsys) (a : api)
    (h : action) (order : list (path * string)) :
  List.find is_stop (act_signals h) = None ->
  uo_notifies (file_update render fs a h order) <= 1 /\
  (uo_notifies (file_update render fs a h order) = 1 <->
   uo_result (file_update render fs a h order) = Ok tt /\ sockets a <> 0).
Proof.
  intros Hstop. unfold file_update. rewrite Hstop.
  destruct (update_loop render fs (md a) order) as [m [u|e]]; simpl.
  - destruct u. destruct (sockets a) as [|n]; simpl; split; try lia.
    split; [intros _; split; [done | lia] | done].
  - split; [lia|]. split; [lia | by intros [? _]].
Qed.

Lemma file_update_notify_once_witness :
  let fs := {| nodes := {[ ["docs"] := Dir; ["docs"; "a.md"] := File (Some "B") ]};
               canon := fun _ => None |} in
  let a := {| md := {[ "a" := "A" ]}; base := ["docs"]; index := "a.md";
              tmpl := demo_tmpl; sockets := 2 |} in
  let h := {| act_signals := [User1]; act_paths := [["docs"; "a.md"]] |} in
  uo_notifies (file_update (fun t => t) fs a h [(["docs"; "a.md"], "a")]) = 1.
Proof.
  intros fs a h.
  assert (Hs : List.find is_stop (act_signals h) = None) by reflexivity.
  destruct (file_update_notify_once (fun t => t) fs a h [(["docs"; "a.md"], "a")] Hs)
    as [_ [_ H]].
  apply H. split; [reflexivity | discriminate].
Defined.

(** C2 (counterexample). In the iteration order [bad.md], [good.md], the
    unreadable [bad.md] stops the handler: [good.md] is not re-rendered,
    the absent key [bad] gains an empty entry, the error is returned and no
    notification is sent. *)
Lemma file_update_error_counterexample :
  let fs := {| nodes := {[ ["d"] := Dir; ["d"; "bad.md"] := File None;
                           ["d"; "good.md"] := File (Some "new") ]};
               canon := fun _ => None |} in
  let a := {| md := {[ "good" := "old" ]}; base := ["d"]; index := "good.md";
              tmpl := demo_tmpl; sockets := 1 |} in
  let h := {| act_signals := []; act_paths := [["d"; "bad.md"]; ["d"; "good.md"]] |} in
  let order := [(["d"; "bad.md"], "bad"); (["d"; "good.md"], "good")] in
  file_update_run fs a h order /\
  md (uo_api (file_update (fun t => t) fs a h order)) !! "good" = Some "old" /\
  md (uo_api (file_update (fun t => t) fs a h order)) !! "bad" = Some "" /\
  md a !! "bad" = None /\
  uo_result (file_update (fun t => t) fs a h order) = Err (IoError ["d"; "bad.md"]) /\
  uo_notifies (file_update (fun t => t) fs a h order) = 0.
Proof.
  intros fs a h order. unfold file_update_run.
  assert (Hb : batch_set fs (base a) h = order) by (vm_compute; reflexivity).
  rewrite Hb. split; [reflexivity|]. vm_compute. repeat split.
Qed.

(** C2 (amended). When the file at [p] cannot be read, the handler stops
    there: the files after it in the iteration order are not processed,
    the read error is returned (the watcher callback logs it) and no
    notification is sent; the store keeps what the files before it wrote,
    and the failing key keeps the value it had (an empty entry when it had
    none, left by [entry(key).or_default()]). *)
Theorem file_update_read_error (render : string -> string) (fs : fsys) (a : api)
    (h : action) (pre : list (path * string)) (p : path) (key : string)
    (post : list (path * string)) (m' : gmap string string) :
  List.find is_stop (act_signals h) = None ->
  update_loop render fs (md a) pre = (m', Ok tt) ->
  read_to_string fs p = None ->
  md (uo_api (file_update render fs a h (pre ++ (p, key) :: post))) =
    <[key := default "" (m' !! key)]> m' /\
  uo_result (file_update render fs a h (pre ++ (p, key) :: post)) = Err (IoError p) /\
  uo_notifies (file_update render fs a h (pre ++ (p, key) :: post)) = 0.
Proof.
  intros Hstop Hpre Hread.
  unfold file_update. rewrite Hstop, Update.update_loop_app, Hpre. simpl.
  unfold write_md_from_file. rewrite Hread. simpl.
  rewrite insert_insert_eq. done.
Qed.

Lemma file_update_read_error_witness :
  let fs := {| nodes := {[ ["d"] := Dir; ["d"; "a.md"] := File (Some "new A");
                           ["d"; "bad.md"] := File None;
                           ["d"; "c.md"] := File (Some "C") ]};
               canon := fun _ => None |} in
  let a := {| md := {[ "a" := "old A"; "bad" := "stale" ]}; base := ["d"];
              index := "a.md"; tmpl := demo_tmpl; sockets := 1 |} in
  let h := {| act_signals := [User1];
              act_paths := [["d"; "a.md"]; ["d"; "bad.md"]; ["d"; "c.md"]] |} in
  let out := file_update (fun t => t) fs a h
               ([(["d"; "a.md"], "a")] ++ (["d"; "bad.md"], "bad") :: [(["d"; "c.md"], "c")]) in
  md (uo_api out) !! "a" = Some "new A" /\ md (uo_api out) !! "bad" = Some "stale" /\
  md (uo_api out) !! "c" = None /\
  uo_result out = Err (IoError ["d"; "bad.md"]) /\ uo_notifies out = 0.
Proof.
  intros fs a h out.
  destruct (file_update_read_error (fun t => t) fs a h [(["d"; "a.md"], "a")]
              ["d"; "bad.md"] "bad" [(["d"; "c.md"], "c")]
              {[ "a" := "new A"; "bad" := "stale" ]}) as (H1 & H2 & H3).
  - reflexivity.
  - vm_compute. reflexivity.
  - reflexivity.
  - subst out. rewrite H1, H2, H3. vm_compute. repeat split.
Defined.

(* ------------------------------------------------------------------ *)
(** ** [Template::default] *)

Module Tmpl.
Import StrFacts.

Lemma split_first_unfold (pat s : string) :
  split_first pat s =
  match Str.strip_prefix pat s with
  | Some rest => Some (EmptyString, rest)
  | None =>
      match s with
      | EmptyString => None
      | String c s' => (fun '(b, a) => (String c b, a)) <$> split_first pat s'
      end
  end.
Proof. by destruct s. Qed.

Lemma split_first_Some (pat s b a : string) :
  split_first pat s = Some (b, a) ->
  s = b +:+ pat +:+ a /\
  (forall x y, s = x +:+ y -> String.length x < String.length b ->
               ~ Str.starts_with pat y).
Proof.
  revert b. induction s as [|c s IH]; intros b; rewrite split_first_unfold.
  - destruct (Str.strip_prefix pat "") as [rest|] eqn:Hp; [|discriminate].
    intros [= <- <-]. apply strip_prefix_Some in Hp.
    split; [done|]. intros x y _ Hl. simpl in Hl. lia.
  - destruct (Str.strip_prefix pat (String c s)) as [rest|] eqn:Hp.
    + intros [= <- <-]. apply strip_prefix_Some in Hp.
      split; [done|]. intros x y _ Hl. simpl in Hl. lia.
    + destruct (split_first pat s) as [[b' a']|] eqn:Hs; simpl; [|discriminate].
      intros [= <- <-]. destruct (IH b' eq_refl) as [Heq Hfirst].
      split; [by rewrite Heq|].
      intros [|c' x] y Hxy Hl.
      * simpl in Hxy. subst y. by apply strip_prefix_None.
      * injection Hxy as <- Hxy. simpl in Hl.
        apply (Hfirst x y Hxy). lia.
Qed.

Lemma split_first_None (pat s : string) :
  split_first pat s = None -> forall x y, s <> x +:+ pat +:+ y.
Proof.
  induction s as [|c s IH]; rewrite split_first_unfold.
  - destruct (Str.strip_prefix pat "") as [rest|] eqn:Hp; [discriminate|].
    intros _ [|c' x] y Hs.
    + simpl in Hs. apply strip_prefix_None in Hp. apply Hp. by exists y.
    + discriminate.
  - destruct (Str.strip_prefix pat (String c s)) as [rest|] eqn:Hp; [discriminate|].
    destruct (split_first pat s) as [[b' a']|] eqn:Hs; simpl; [discriminate|].
    intros _ [|c' x] y Heq.
    + simpl in Heq. apply strip_prefix_None in Hp. apply Hp. by exists y.
    + injection Heq as _ Heq. by apply (IH eq_refl x y).
Qed.

End Tmpl.

(** [Template::default] splits the page at its placeholder: putting
    ["{{md}}"] back between [before] and [after] gives the page again, and
    the not-found page is the page with the 404 heading in place of the
    placeholder. *)
Theorem template_default_roundtrip (s : string) (t : template) :
  template_default s = Some t ->
  html t "{{md}}" = s /\
  not_found t = html t "<h1>Error 404: Page not found</h1>".
Proof.
  unfold template_default.
  destruct (split_first "{{md}}" s) as [[b a]|] eqn:Hs; simpl; [|discriminate].
  intros [= <-]. apply Tmpl.split_first_Some in Hs as [-> _].
  split; reflexivity.
Qed.

Lemma template_default_roundtrip_witness :
  html demo_tmpl "{{md}}" = "<main>{{md}}</main>" /\
  not_found demo_tmpl = html demo_tmpl "<h1>Error 404: Page not found</h1>".
Proof.
  apply (template_default_roundtrip "<main>{{md}}</main>" demo_tmpl).
  reflexivity.
Defined.

(** [Template::default] reaches its [unreachable!] branch exactly when the
    page contains no ["{{md}}"] placeholder. *)
Theorem template_default_none (s : string) :
  template_default s = None <->
  ~ (exists x y, s = x +:+ "{{md}}" +:+ y).
Proof.
  unfold template_default. split.
  - destruct (split_first "{{md}}" s) as [[b a]|] eqn:Hs; simpl; [discriminate|].
    intros _ (x & y & Heq). by apply (Tmpl.split_first_None _ _ Hs x y).
  - intros Hno. destruct (split_first "{{md}}" s) as [[b a]|] eqn:Hs; simpl; [|done].
    exfalso. apply Tmpl.split_first_Some in Hs as [Heq _]. apply Hno. by exists b, a.
Qed.

(** [Template::default] splits at the first placeholder: no occurrence
    of ["{{md}}"] starts inside [before]. *)
Theorem template_default_first (s : string) (t : template) :
  template_default s = Some t ->
  forall x y, s = x +:+ y -> String.length x < String.length (before t) ->
              ~ Str.starts_with "{{md}}" y.
Proof.
  unfold template_default.
  destruct (split_first "{{md}}" s) as [[b a]|] eqn:Hs; simpl; [|discriminate].
  intros [= <-]. apply Tmpl.split_first_Some in Hs as [_ H]. exact H.
Qed.

Lemma template_default_first_witness :
  let t := {| before := "{"; after := "x{{md}}";
              not_found := "{<h1>Error 404: Page not found</h1>x{{md}}" |} in
  template_default "{{{md}}x{{md}}" = Some t /\
  ~ Str.starts_with "{{md}}" "{{{md}}x{{md}}".
Proof.
  intros t.
  assert (H : template_default "{{{md}}x{{md}}" = Some t) by reflexivity.
  split; [exact H|].
  apply (template_default_first _ t H "" "{{{md}}x{{md}}"); [reflexivity | simpl; lia].
Defined.

(* ------------------------------------------------------------------ *)
(** ** Routing and startup *)

Module Paths.

Lemma has_slash_app (a b : string) : has_slash (a +:+ b) = has_slash a || has_slash b.
Proof.
  unfold has_slash. induction a as [|c a IH]; simpl; [done|].
  by rewrite IH, orb_assoc.
Qed.

End Paths.

Module Routes.
Import StrFacts.

(** A name ending in [".md"] is none of the static routes. *)
Lemma md_not_static (k lit : string) :
  Str.strip_suffix ".md" lit = None -> String.eqb (k +:+ ".md") lit = false.
Proof.
  intros Hn. destruct (String.eqb (k +:+ ".md") lit) eqn:E; [|done].
  apply String.eqb_eq in E. rewrite <- E in Hn.
  rewrite (proj2 (strip_suffix_Some _ _ k) eq_refl) in Hn. discriminate.
Qed.

Lemma url_char_plain (c : ascii) :
  url_char c = true -> ((nat_of_ascii c <? 128) && negb (Ascii.eqb c "%"))%bool = true.
Proof.
  destruct c as [[] [] [] [] [] [] [] []]; intros H; vm_compute in H;
    first [discriminate H | reflexivity].
Qed.

Lemma ascii_list_app (x y : string) :
  list_ascii_of_string (x +:+ y) = list_ascii_of_string x ++ list_ascii_of_string y.
Proof. induction x as [|c x IH]; simpl; [done | by rewrite IH]. Qed.

(** On URL characters, decoding is the identity and the result is UTF-8. *)
Lemma decode_plain (s : string) :
  forallb url_char (list_ascii_of_string s) = true ->
  percent_decode s = s /\ utf8_ok (map nat_of_ascii (list_ascii_of_string s)) = true.
Proof.
  induction s as [|c s IH]; [done|].
  simpl. intros [Hc Hs]%andb_prop.
  apply url_char_plain, andb_prop in Hc as [Hlt Hpct].
  apply negb_true_iff in Hpct.
  destruct (IH Hs) as [Hd Hu].
  cbn [percent_decode utf8_ok]. rewrite Hpct, Hlt, Hd, Hu. done.
Qed.

Lemma route_md (k : string) :
  forallb url_char (list_ascii_of_string k) = true ->
  route_of ("/" +:+ k +:+ ".md") =
  if has_slash k then RNoRoute else RMd (k +:+ ".md").
Proof.
  intros Hk. unfold route_of.
  rewrite (proj2 (strip_prefix_Some "/" _ (k +:+ ".md")) eq_refl).
  rewrite !md_not_static by reflexivity.
  rewrite Paths.has_slash_app, orb_false_r.
  destruct (has_slash k); [done|]. cbv zeta.
  destruct (decode_plain (k +:+ ".md")) as [-> ->]; [|done].
  by rewrite ascii_list_app, forallb_app, Hk.
Qed.

Lemma no_slash_prefix (x : string) : has_slash x = false -> Str.strip_prefix "/" x = None.
Proof.
  destruct x as [|c x]; [done|]. intros H.
  change (has_slash (String c x)) with (Ascii.eqb c "/" || has_slash x)%bool in H.
  apply orb_false_iff in H as [H _].
  change (Str.strip_prefix "/" (String c x))
    with (if ascii_dec "/" c then Str.strip_prefix "" x else None).
  destruct (ascii_dec "/" c) as [<-|]; [discriminate | done].
Qed.

Lemma clean_url_md (k : string) : has_slash k = false -> clean_url (k +:+ ".md") = k.
Proof.
  intros Hk. unfold clean_url. cbv zeta.
  rewrite no_slash_prefix by (by rewrite Paths.has_slash_app, Hk).
  simpl. by rewrite (proj2 (strip_suffix_Some _ _ k) eq_refl).
Qed.

End Routes.

(** A request for the page of key [k], with path ["/" ++ k ++ ".md"] and
    [k] made of characters a URL path carries as they are: when [k]
    contains a ['/'] (every file in a subdirectory of the base) the path
    matches no route, since ["/:md"] captures a single segment; otherwise
    it reaches [handle_md] with [k ++ ".md"], which serves the entry of
    [k] in the shell or the not-found page. *)
Theorem route_md_page (k : string) (a : api) :
  forallb url_char (list_ascii_of_string k) = true ->
  (has_slash k = true -> route_of ("/" +:+ k +:+ ".md") = RNoRoute) /\
  (has_slash k = false ->
   route_of ("/" +:+ k +:+ ".md") = RMd (k +:+ ".md") /\
   handle_md (k +:+ ".md") a =
     match md a !! k with
     | Some v => (OK_200, html (tmpl a) v)
     | None => (NOT_FOUND_404, not_found (tmpl a))
     end).
Proof.
  intros Hu. rewrite (Routes.route_md k Hu). split.
  - by intros ->.
  - intros Hk. rewrite Hk. split; [done|].
    unfold handle_md, get_md. rewrite Routes.clean_url_md by done.
    by destruct (md a !! k).
Qed.

Lemma route_md_page_witness :
  let a := {| md := {[ "intro" := "I" ]}; base := []; index := "intro.md";
              tmpl := demo_tmpl; sockets := 0 |} in
  route_of "/guide/intro.md" = RNoRoute /\ route_of "/intro.md" = RMd "intro.md" /\
  handle_md "intro.md" a = (OK_200, "<main>I</main>").
Proof.
  intros a.
  destruct (route_md_page "guide/intro" a) as [H1 _]; [reflexivity|].
  destruct (route_md_page "intro" a) as [_ H2]; [reflexivity|].
  split; [apply H1; reflexivity|]. apply H2. reflexivity.
Defined.

(** A fresh [Api]: the root is the canonical base path, the store is the
    scan of it, no socket is counted, and the index is the canonical index
    path relative to the root, which is where [GET /] redirects. *)
Theorem api_new_ok (render : string -> string) (fs : fsys) (t : template)
    (index_s base_s : string) (a : api) :
  api_new render fs t index_s base_s = Ok a ->
  canon fs base_s = Some (base a) /\
  initialize_md render fs (base a) = Ok (md a) /\
  sockets a = 0 /\ tmpl a = t /\
  exists rel, canon fs index_s = Some (base a ++ rel) /\
              index a = to_str rel /\ handle_index a = SeeOther (to_str rel).
Proof.
  unfold api_new.
  destruct (canon fs base_s) as [b|] eqn:Hb; [|discriminate].
  destruct (canon fs index_s) as [q|] eqn:Hq; [|discriminate].
  destruct (path_strip_prefix b q) as [rel|] eqn:Hr; [|discriminate].
  destruct (initialize_md render fs b) as [m|e] eqn:Hm; [|discriminate].
  intros [= <-]. simpl.
  apply Keys.path_strip_prefix_Some in Hr. subst q.
  repeat split; try done. by exists rel.
Qed.

Lemma api_new_ok_witness :
  let fs := {| nodes := {[ ["srv"] := Dir; ["srv"; "index.md"] := File (Some "hi") ]};
               canon := fun s => if String.eqb s "./" then Some ["srv"]
                                 else if String.eqb s "./index.md"
                                      then Some ["srv"; "index.md"] else None |} in
  exists a, api_new (fun t => t) fs demo_tmpl "./index.md" "./" = Ok a /\
            handle_index a = SeeOther "index.md" /\ sockets a = 0.
Proof.
  intros fs.
  eexists. split; [vm_compute; reflexivity|].
  destruct (api_new_ok (fun t => t) fs demo_tmpl "./index.md" "./" _ ltac:(vm_compute; reflexivity))
    as (_ & _ & Hs & _ & rel & Hq & _ & Hh).
  split; [|exact Hs].
  rewrite Hh. vm_compute in Hq. injection Hq as <-. reflexivity.
Defined.

(** [Api::new] rejects an index whose canonical path is not under the
    canonical base, before the base is scanned: the outcome does not
    depend on the files. *)
Theorem api_new_index_outside (render : string -> string) (fs : fsys) (t : template)
    (index_s base_s : string) (b q : path) :
  canon fs base_s = Some b -> canon fs index_s = Some q ->
  ~ (exists rel, q = b ++ rel) ->
  api_new render fs t index_s base_s = Err (Bail "Index must be a path within base").
Proof.
  intros Hb Hq Hout. unfold api_new. rewrite Hb, Hq.
  destruct (path_strip_prefix b q) as [rel|] eqn:Hr; [|done].
  exfalso. apply Hout. exists rel. by apply Keys.path_strip_prefix_Some.
Qed.

Lemma api_new_index_outside_witness :
  let fs := {| nodes := {[ ["srv"] := Dir; ["etc"; "index.md"] := File None ]};
               canon := fun s => if String.eqb s "/srv" then Some ["srv"]
                                 else if String.eqb s "/etc/index.md"
                                      then Some ["etc"; "index.md"] else None |} in
  api_new (fun t => t) fs demo_tmpl "/etc/index.md" "/srv" =
    Err (Bail "Index must be a path within base").
Proof.
  intros fs.
  apply (api_new_index_outside _ fs _ _ _ ["srv"] ["etc"; "index.md"]);
    [reflexivity | reflexivity |].
  intros [rel Hrel]. discriminate.
Defined.

(* ------------------------------------------------------------------ *)
(** ** The console *)

Module Trim.







End Trim.

Module Console.





End Console.





(** [set_path] only ever writes the root, the index and the watched set:
    the store, the template and the socket count are never touched, and
    on any outcome but [Ok(true)] (an unknown command, a parse or
    canonicalization error, an index outside the root) nothing changes. *)
Theorem set_path_frame (fs : fsys) (s : string) (c c' : console) (r : result bool) :
  set_path fs s c = (c', r) ->
  md (c_api c') = md (c_api c) /\ tmpl (c_api c') = tmpl (c_api c) /\
  sockets (c_api c') = sockets (c_api c) /\
  (r <> Ok true -> c' = c).
Proof.
  unfold set_path.
  destruct (parse_set s) as [r0|[k raw]].
  - intros [= <- <-]. done.
  - destruct (String.eqb (Str.trim raw) "").
    { intros [= <- <-]. done. }
    destruct (canon fs (Str.trim raw)) as [q|].
    2:{ intros [= <- <-]. done. }
    destruct k.
    + intros [= <- <-]. simpl. repeat split; done.
    + destruct (path_strip_prefix (base (c_api c)) q).
      * intros [= <- <-]. simpl. repeat split; done.
      * intros [= <- <-]. done.
Qed.

Lemma set_path_frame_witness :
  let fs := {| nodes := {[ ["new"] := Dir ]};
               canon := fun s => if String.eqb s "/new" then Some ["new"] else None |} in
  let c := {| c_api := {| md := {[ "a" := "A" ]}; base := ["old"]; index := "a.md";
                          tmpl := demo_tmpl; sockets := 2 |}; c_watch := [["old"]] |} in
  md (c_api (set_path fs "set path /new" c).1) = {[ "a" := "A" ]} /\
  (set_path fs "set path nowhere" c).1 = c.
Proof.
  intros fs c. split.
  - destruct (set_path_frame fs "set path /new" c (set_path fs "set path /new" c).1
                (set_path fs "set path /new" c).2) as [H _];
      [apply surjective_pairing | exact H].
  - destruct (set_path_frame fs "set path nowhere" c (set_path fs "set path nowhere" c).1
                (set_path fs "set path nowhere" c).2) as (_ & _ & _ & H);
      [apply surjective_pairing | apply H; discriminate].
Defined.




(* ------------------------------------------------------------------ *)
(** ** The watcher on a batch of readable files *)

Module Update2.



End Update2.


